(** * lvl2.js ResourceProvider: rule registration and rule resolution

    A shallow embedding of [lib/ResourceProvider.js].  JavaScript values are
    an inductive type, a plain object is the list of its own properties in
    enumeration order, the provider instance is a record that every
    operation takes and returns, and a [throw] is the [Throw] case of
    [result].  Objects are modelled by value.  In the source a rule object
    that the caller hands to a registration is itself stored, with [$p]
    written into it, so an object registered under several keys is shared
    by their slots; a bare action is wrapped in a new object.  The
    statements about registered rule objects below are those that hold
    with such sharing as well, or they are stated for bare actions. *)

From Stdlib Require Import String Ascii List Bool Arith NArith ZArith Lia.
Import ListNotations.
Local Open Scope string_scope.
Local Open Scope list_scope.
Set Warnings "-register-all".

(** ** JavaScript values *)

Module JS.

(** Numbers are kept to the integers (no claim computes with them).  A
    callable is identified by a number.  [VObj] is a plain object (prototype
    [Object.prototype]) given by its own enumerable data properties in
    enumeration order; [VHost] is any other object (class instance, Date). *)
Inductive value : Type :=
| VUndefined
| VNull
| VBool (b : bool)
| VNum (n : Z)
| VStr (s : string)
| VFun (f : nat)
| VArr (l : list value)
| VObj (props : list (string * value))
| VHost (tag : nat).

Definition props : Type := list (string * value).

Inductive error : Type :=
| TypeError (msg : string).

Inductive result (A : Type) : Type :=
| Ok (a : A)
| Throw (e : error).
Arguments Ok {A} a.
Arguments Throw {A} e.

Definition bind {A B} (r : result A) (k : A -> result B) : result B :=
  match r with
  | Ok a => k a
  | Throw e => Throw e
  end.

(** lodash type tests, on the values of the model. *)
Definition isString (v : value) : bool :=
  match v with VStr _ => true | _ => false end.
Definition isFunction (v : value) : bool :=
  match v with VFun _ => true | _ => false end.
Definition isBoolean (v : value) : bool :=
  match v with VBool _ => true | _ => false end.
Definition isUndefined (v : value) : bool :=
  match v with VUndefined => true | _ => false end.
Definition isPlainObject (v : value) : bool :=
  match v with VObj _ => true | _ => false end.

(** ToBoolean, as used by [!x]. *)
Definition truthy (v : value) : bool :=
  match v with
  | VUndefined | VNull => false
  | VBool b => b
  | VNum n => negb (Z.eqb n 0)
  | VStr s => negb (String.eqb s "")
  | VFun _ | VArr _ | VObj _ | VHost _ => true
  end.

(** *** Own properties in enumeration order

    An ordinary object enumerates its array-index keys first, in ascending
    numeric order, and then its other string keys in the order they were
    created; assigning to an existing key keeps the key where it is. *)

Definition digit_of (c : ascii) : option N :=
  let n := N_of_ascii c in
  if (N.leb 48 n && N.leb n 57)%bool then Some (n - 48)%N else None.

Fixpoint digits_value (acc : N) (s : string) : option N :=
  match s with
  | EmptyString => Some acc
  | String c s' =>
      match digit_of c with
      | Some d => digits_value (acc * 10 + d)%N s'
      | None => None
      end
  end.

(** [array_index k]: [k] is the canonical decimal string of an integer
    below 2^32 - 1. *)
Definition array_index (k : string) : option N :=
  match k with
  | EmptyString => None
  | String c rest =>
      if (Ascii.eqb c "0" && negb (String.eqb rest ""))%bool then None
      else if Nat.ltb 10 (String.length k) then None
      else match digits_value 0 k with
           | Some n => if N.ltb n 4294967295 then Some n else None
           | None => None
           end
  end.

Section Props.
Context {A : Type}.

Fixpoint lookup (k : string) (l : list (string * A)) : option A :=
  match l with
  | [] => None
  | (k', v) :: t => if String.eqb k' k then Some v else lookup k t
  end.

Definition has_own (k : string) (l : list (string * A)) : bool :=
  match lookup k l with Some _ => true | None => false end.

Fixpoint prop_replace (k : string) (v : A) (l : list (string * A))
  : list (string * A) :=
  match l with
  | [] => []
  | (k', v') :: t =>
      if String.eqb k' k then (k', v) :: t else (k', v') :: prop_replace k v t
  end.

Fixpoint insert_index (n : N) (k : string) (v : A) (l : list (string * A))
  : list (string * A) :=
  match l with
  | [] => [(k, v)]
  | (k', v') :: t =>
      match array_index k' with
      | Some m => if N.ltb m n then (k', v') :: insert_index n k v t
                  else (k, v) :: l
      | None => (k, v) :: l
      end
  end.

(** A key that the object does not have yet. *)
Definition prop_create (k : string) (v : A) (l : list (string * A))
  : list (string * A) :=
  match array_index k with
  | Some n => insert_index n k v l
  | None => l ++ [(k, v)]
  end.

(** [o[k] = v] on own data properties. *)
Definition prop_set (k : string) (v : A) (l : list (string * A))
  : list (string * A) :=
  if has_own k l then prop_replace k v l else prop_create k v l.

(** [delete o[k]]. *)
Fixpoint prop_delete (k : string) (l : list (string * A))
  : list (string * A) :=
  match l with
  | [] => []
  | (k', v') :: t =>
      if String.eqb k' k then prop_delete k t else (k', v') :: prop_delete k t
  end.

End Props.

(** [o.k] read on a plain object for a name that [Object.prototype] does
    not define: the own property, else [undefined]. *)
Definition prop_get (k : string) (o : props) : value :=
  match lookup k o with Some v => v | None => VUndefined end.

(** [_.extend(dst, src)] for a plain-object source: every own property of
    [src], in its enumeration order, is assigned on [dst]. *)
Definition extend (dst src : props) : props :=
  fold_left (fun d kv => prop_set (fst kv) (snd kv) d) src dst.

(** The names [Object.prototype] defines; a plain object inherits them. *)
Definition object_prototype_names : list string :=
  [ "constructor"; "__defineGetter__"; "__defineSetter__"; "hasOwnProperty";
    "__lookupGetter__"; "__lookupSetter__"; "isPrototypeOf";
    "propertyIsEnumerable"; "toString"; "valueOf"; "__proto__";
    "toLocaleString" ].

Definition is_object_prototype_name (k : string) : bool :=
  existsb (String.eqb k) object_prototype_names.

(** [String.prototype.split] with a non-empty string separator: the
    pieces between the successive leftmost occurrences of the separator. *)
Fixpoint strip_prefix (p s : string) : option string :=
  match p, s with
  | EmptyString, _ => Some s
  | String a p', String b s' =>
      if Ascii.eqb a b then strip_prefix p' s' else None
  | String _ _, EmptyString => None
  end.

Fixpoint split_from (fuel : nat) (sep cur s : string) : list string :=
  match fuel, s with
  | _, EmptyString => [cur]
  | O, _ => [(cur ++ s)%string]
  | S n, String c s' =>
      match strip_prefix sep s with
      | Some rest => cur :: split_from n sep "" rest
      | None => split_from n sep (cur ++ String c "")%string s'
      end
  end.

Definition split (sep s : string) : list string :=
  split_from (String.length s) sep "" s.

(** [Array.prototype.join] on an array of strings. *)
Definition join (sep : string) (l : list string) : string :=
  String.concat sep l.

End JS.

(** ** The provider *)

Module ResourceProvider.
Import JS.

(** [function parseGlobMultiPattern(string)] *)
Definition parseGlobMultiPattern (s : string) : list string :=
  filter (fun pattern => negb (String.eqb pattern "")) (split " | " s).

(** [function stringifyGlobMultiPattern(globs)] *)
Definition stringifyGlobMultiPattern (globs : list string) : string :=
  join " | " globs.

(** The object held in [this._rules].  It is created as [{}], so apart from
    its own slots (a canonical key to a rule object) it has a prototype:
    [Object.prototype] at first ([None]), or the rule object that an
    assignment to the key ["__proto__"] installed ([Some r]). *)
Record rules_object : Type := mkRules {
  own : list (string * props);
  proto : option props
}.

(** What reading a property of [this._rules] gives: a value of the model,
    or the member that [Object.prototype] defines under that name. *)
Inductive jsres : Type :=
| Val (v : value)
| Native (name : string).

Definition object_prototype_get (k : string) : jsres :=
  if is_object_prototype_name k then Native k else Val VUndefined.

(** [this._rules[k]] *)
Definition rules_get (k : string) (o : rules_object) : jsres :=
  match lookup k (own o) with
  | Some r => Val (VObj r)
  | None =>
      match proto o with
      | Some r =>
          match lookup k r with
          | Some v => Val v
          | None => if String.eqb k "__proto__" then Val (VObj r)
                    else object_prototype_get k
          end
      | None => object_prototype_get k
      end
  end.

(** [this._rules[k] = rule].  The key ["__proto__"] reaches the accessor of
    [Object.prototype], which replaces the prototype, unless a data
    property of that name is found first. *)
Definition rules_assign (k : string) (rule : props) (o : rules_object)
  : rules_object :=
  if has_own k (own o) then mkRules (prop_replace k rule (own o)) (proto o)
  else if String.eqb k "__proto__" then
    match proto o with
    | Some r => if has_own k r then mkRules (prop_create k rule (own o)) (proto o)
                else mkRules (own o) (Some rule)
    | None => mkRules (own o) (Some rule)
    end
  else mkRules (prop_create k rule (own o)) (proto o).

Record t : Type := mk {
  appId : string;
  _rules : rules_object;
  dynamicHandlerCount : nat;
  staticRerouteCount : nat;
  staticLockCount : nat
}.

(** The instance as the constructor has it before [_useRules] runs: the
    counters are the prototype's zeros. *)
Definition fresh (id : string) : t := mk id (mkRules [] None) 0 0 0.

(** [ResourceProvider.prototype.handleResourcePath] *)
Definition handleResourcePath (this : t) (resourcePath : value)
  : result value :=
  if negb (isString resourcePath)
  then Throw (TypeError "resourcePath is no string")
  else Ok VNull.

(** Lines 140-151 of [_useRule]: a bare action is wrapped, a plain object
    with a supported [action] is taken as it is. *)
Definition as_rule (rule : value) : option props :=
  if (isFunction rule || isString rule || isBoolean rule)%bool
  then Some [("action", rule)]
  else match rule with
       | VObj r =>
           let a := prop_get "action" r in
           if (isUndefined a || isFunction a || isString a || isBoolean a)%bool
           then Some r else None
       | _ => None
       end.

(** Lines 155-166 of [_useRule]. *)
Definition count_action (action : value) (this : t) : t :=
  if isFunction action then
    mk (appId this) (_rules this) (S (dynamicHandlerCount this))
       (staticRerouteCount this) (staticLockCount this)
  else if isString action then
    mk (appId this) (_rules this) (dynamicHandlerCount this)
       (S (staticRerouteCount this)) (staticLockCount this)
  else match action with
       | VBool false =>
           mk (appId this) (_rules this) (dynamicHandlerCount this)
              (staticRerouteCount this) (S (staticLockCount this))
       | _ => this
       end.

Definition store_rule (globs : string) (rule : props) (this : t) : t :=
  mk (appId this) (rules_assign globs rule (_rules this))
     (dynamicHandlerCount this) (staticRerouteCount this)
     (staticLockCount this).

(** [ResourceProvider.prototype._useRule]: the canonical key it returns and
    the instance after the call.  The slot receives the rule with [$p]
    written into it, by value: that the source writes [$p] into the
    caller's own object, which other slots may hold too, is not modelled. *)
Definition _useRule (this : t) (globs rule : value) : result (string * t) :=
  match globs with
  | VStr g =>
      match as_rule rule with
      | Some r =>
          let p := parseGlobMultiPattern g in
          let r := prop_set "$p" (VArr (map VStr p)) r in
          let g := stringifyGlobMultiPattern p in
          let this := count_action (prop_get "action" r) this in
          Ok (g, store_rule g r this)
      | None => Throw (TypeError "rule is no supported Rule type/config")
      end
  | _ => Throw (TypeError "globs is no string")
  end.

Arguments _useRule : simpl never.

(** The [_.forOwn] loop of [_useRules]. *)
Fixpoint useRules_loop (this : t) (entries : props) : result t :=
  match entries with
  | [] => Ok this
  | (pattern, rule) :: rest =>
      bind (_useRule this (VStr pattern) rule)
           (fun kt => useRules_loop (snd kt) rest)
  end.

(** [ResourceProvider.prototype._useRules] *)
Definition _useRules (this : t) (ruleset : value) : result t :=
  if negb (truthy ruleset) then Ok this
  else match ruleset with
       | VObj entries => useRules_loop this entries
       | _ => Throw (TypeError "ruleset is no plain Object")
       end.

(** [_.extend({map: {}, rules: {}}, config)]; a config that is not a plain
    object is taken to bring no [rules]. *)
Definition with_defaults (config : value) : props :=
  let defaults := [("map", VObj []); ("rules", VObj [])] in
  match config with
  | VObj c => extend defaults c
  | _ => defaults
  end.

(** [new ResourceProvider(appId, config)]; an argument left out is
    [VUndefined]. *)
Definition new (appId config : value) : result t :=
  match appId with
  | VStr id =>
      let config := with_defaults config in
      _useRules (fresh id) (prop_get "rules" config)
  | _ => Throw (TypeError "appId is no string")
  end.

(** The strings of the array in [rule['$p']]; a rule of the store always
    has one, and [multimatch] takes a missing list as the empty list. *)
Definition patterns_of (rule : props) : list string :=
  match lookup "$p" rule with
  | Some (VArr l) =>
      flat_map (fun v => match v with VStr s => [s] | _ => [] end) l
  | _ => []
  end.

Section Resolution.

(** The two outside libraries: [multimatch(path, patterns)] gives the list
    of matched paths, [path.normalize] the normalized path. *)
Variable multimatch : string -> list string -> list string.
Variable normalize : string -> string.

(** [ResourceProvider.prototype._normalizeResourcePath] *)
Definition _normalizeResourcePath (resourcePath : value) : result string :=
  match resourcePath with
  | VStr p => Ok (normalize p)
  | _ => Throw (TypeError "resourcePath is no string")
  end.

(** One call of the [_.forOwn] callback of [getRulesFor], on the pair
    [(appliedRules, combinedRules)]. *)
Definition visit (resourcePath : string) (acc : list string * props)
  (slot : string * props) : list string * props :=
  let matchResult := multimatch resourcePath (patterns_of (snd slot)) in
  if Nat.ltb 0 (List.length matchResult)
  then (fst acc ++ [fst slot], extend (snd acc) (snd slot))
  else acc.

Definition scan (resourcePath : string) (slots : list (string * props))
  : list string * props :=
  fold_left (visit resourcePath) slots ([], []).

(** [ResourceProvider.prototype.getRulesFor] *)
Definition getRulesFor (this : t) (resourcePath : value) : result props :=
  bind (_normalizeResourcePath resourcePath) (fun resourcePath =>
    let '(appliedRules, combinedRules) := scan resourcePath (own (_rules this)) in
    let combinedRules := prop_delete "$p" combinedRules in
    let combinedRules := prop_set "$ps" (VArr (map VStr appliedRules)) combinedRules in
    let combinedRules := prop_set "$target" (VStr resourcePath) combinedRules in
    Ok combinedRules).

End Resolution.

(** [ResourceProvider.prototype.getRule] *)
Definition getRule (this : t) (globs : value) : result jsres :=
  match globs with
  | VStr g =>
      let g := stringifyGlobMultiPattern (parseGlobMultiPattern g) in
      Ok (rules_get g (_rules this))
  | _ => Throw (TypeError "globs is no string")
  end.

End ResourceProvider.

(** ** The outside libraries *)

Module Lib.
Import JS.

Definition is_slash (c : ascii) : bool := Ascii.eqb c "/".

Fixpoint last_is_slash (s : string) : bool :=
  match s with
  | EmptyString => false
  | String c EmptyString => is_slash c
  | String _ s' => last_is_slash s'
  end.

(** Modelled from the spec: the path normalization capability, Node's
    [path.normalize], is not in the repository.  The spec asks to resolve
    [.] and [..] segments and to collapse redundant separators; this is the
    POSIX flavour.  [res] is the stack of kept segments, top first. *)
Fixpoint normalizeArray (allowAboveRoot : bool) (res parts : list string)
  : list string :=
  match parts with
  | [] => rev res
  | p :: parts' =>
      if (String.eqb p "" || String.eqb p ".")%bool
      then normalizeArray allowAboveRoot res parts'
      else if String.eqb p ".." then
        match res with
        | top :: res' =>
            if String.eqb top ".."
            then normalizeArray allowAboveRoot
                   (if allowAboveRoot then ".." :: res else res) parts'
            else normalizeArray allowAboveRoot res' parts'
        | [] =>
            normalizeArray allowAboveRoot
              (if allowAboveRoot then [".."] else []) parts'
        end
      else normalizeArray allowAboveRoot (p :: res) parts'
  end.

(** Modelled from the spec: the path normalization capability (see
    [normalizeArray]); a trailing separator is kept. *)
Definition normalize (path : string) : string :=
  let isAbsolute := match path with String c _ => is_slash c | _ => false end in
  let trailingSlash := last_is_slash path in
  let p := join "/" (normalizeArray (negb isAbsolute) [] (split "/" path)) in
  let p := if (String.eqb p "" && negb isAbsolute)%bool then "." else p in
  let p := if (negb (String.eqb p "") && trailingSlash)%bool
           then (p ++ "/")%string else p in
  ((if isAbsolute then "/" else "") ++ p)%string.

(** The pieces of a path between runs of slashes. *)
Fixpoint split_slashes (cur : string) (in_run : bool) (s : string)
  : list string :=
  match s with
  | EmptyString => [cur]
  | String c s' =>
      if is_slash c
      then if in_run then split_slashes "" true s'
           else cur :: split_slashes "" true s'
      else split_slashes (cur ++ String c "")%string false s'
  end.

(** Modelled from the spec: the glob matching capability (minimatch under
    multimatch) is not in the repository.  This is the comparison of a
    path with one pattern that has no glob metacharacter: segment by
    segment, and a path may carry one more, empty, segment (a trailing
    slash). *)
Fixpoint matchOne (file pattern : list string) : bool :=
  match file, pattern with
  | [], [] => true
  | [], _ :: _ => false
  | f :: fs, [] => match fs with [] => String.eqb f "" | _ => false end
  | f :: fs, p :: ps => if String.eqb f p then matchOne fs ps else false
  end.

(** Modelled from the spec: the glob matching capability, one path against
    one metacharacter-free pattern. *)
Definition minimatch (f pattern : string) : bool :=
  if String.eqb pattern "" then String.eqb f ""
  else matchOne (split_slashes "" false f) (split_slashes "" false pattern).

Definition union (a b : list string) : list string :=
  nodup string_dec (a ++ b).

Definition difference (a b : list string) : list string :=
  filter (fun x => negb (existsb (String.eqb x) b)) a.

(** Modelled from the spec: the glob matching capability for an ordered
    sequence of patterns.  A pattern adds the paths it matches; a pattern
    with a leading [!] removes the paths that its rest matches. *)
Definition multimatch_list (paths patterns : list string) : list string :=
  fold_left
    (fun ret pattern =>
       match pattern with
       | String "!" rest =>
           difference ret (filter (fun f => minimatch f rest) paths)
       | _ => union ret (filter (fun f => minimatch f pattern) paths)
       end)
    patterns [].

(** Modelled from the spec: the glob matching capability, as the provider
    calls it: one path, the patterns of one rule. *)
Definition multimatch (path : string) (patterns : list string) : list string :=
  multimatch_list [path] patterns.

End Lib.

(** The provider with the two libraries plugged in. *)
Definition resolveRulesFor : ResourceProvider.t -> JS.value -> JS.result JS.props :=
  ResourceProvider.getRulesFor Lib.multimatch Lib.normalize.

Import JS ResourceProvider.

(** The kind-by-kind census of the store that the counters are meant to
    keep: the slots of [this._rules] whose rule has an action passing
    [test]. *)
Definition stored_with (test : value -> bool) (this : t) : nat :=
  List.length
    (filter (fun slot => test (prop_get "action" (snd slot)))
            (own (_rules this))).

Definition is_lock (a : value) : bool :=
  match a with VBool false => true | _ => false end.

(** The states a provider can be in: what a successful construction
    returns, and what a successful registration makes of such a state. *)
Inductive reachable : t -> Prop :=
| reach_new appId config this :
    new appId config = Ok this -> reachable this
| reach_use this globs rule k this' :
    reachable this -> _useRule this globs rule = Ok (k, this') ->
    reachable this'.


(** What one registration of a rule with action [a] does to the three
    counters, kind by kind. *)
Definition counted_once (a : value) (before after : t) : Prop :=
  (isFunction a = true ->
     dynamicHandlerCount after = S (dynamicHandlerCount before) /\
     staticRerouteCount after = staticRerouteCount before /\
     staticLockCount after = staticLockCount before) /\
  (isString a = true ->
     dynamicHandlerCount after = dynamicHandlerCount before /\
     staticRerouteCount after = S (staticRerouteCount before) /\
     staticLockCount after = staticLockCount before) /\
  (a = VBool false ->
     dynamicHandlerCount after = dynamicHandlerCount before /\
     staticRerouteCount after = staticRerouteCount before /\
     staticLockCount after = S (staticLockCount before)) /\
  (a = VBool true \/ a = VUndefined ->
     dynamicHandlerCount after = dynamicHandlerCount before /\
     staticRerouteCount after = staticRerouteCount before /\
     staticLockCount after = staticLockCount before).

(** The test [getRulesFor] makes on a slot: [matchResult.length > 0]. *)
Definition matches (multimatch : string -> list string -> list string)
  (path : string) (slot : string * props) : bool :=
  Nat.ltb 0 (List.length (multimatch path (patterns_of (snd slot)))).





(** A key in canonical form: normalizing it gives the key itself. *)
Definition canonical_key (k : string) : Prop :=
  stringifyGlobMultiPattern (parseGlobMultiPattern k) = k.

(** The store as registrations keep it, whether or not rule objects are
    shared between slots: every key is canonical, no rule carries an empty
    pattern, and as long as the empty key is not in the store every rule
    carries at least one pattern. *)
Definition store_ok (this : t) : Prop :=
  Forall (fun slot => canonical_key (fst slot) /\
                      ~ In "" (patterns_of (snd slot)))
         (own (_rules this)) /\
  (has_own "" (own (_rules this)) = false ->
   Forall (fun slot => patterns_of (snd slot) <> []) (own (_rules this))).

(** The rule values [_useRule] takes. *)
Definition supported_rule (entry : string * value) : bool :=
  match as_rule (snd entry) with Some _ => true | None => false end.

(** The rulesets [_useRules] goes through without throwing. *)
Definition acceptable_ruleset (ruleset : value) : bool :=
  (negb (truthy ruleset) ||
   match ruleset with
   | VObj entries => forallb supported_rule entries
   | _ => false
   end)%bool.

(** The separator starts at no position of [p] when [p] is followed by
    [tail]. *)
Fixpoint no_match (sep p tail : string) : Prop :=
  match p with
  | EmptyString => True
  | String c p' =>
      strip_prefix sep (p ++ tail)%string = None /\ no_match sep p' tail
  end.

(** Pieces that a split can have produced: the separator starts inside
    none of them, also when the separator follows. *)
Fixpoint pieces_ok (sep : string) (l : list string) : Prop :=
  match l with
  | [] => True
  | p :: l' =>
      no_match sep p "" /\ (l' <> [] -> no_match sep p sep) /\ pieces_ok sep l'
  end.

Fixpoint has_char (c : ascii) (s : string) : bool :=
  match s with
  | EmptyString => false
  | String c' s' => (Ascii.eqb c c' || has_char c s')%bool
  end.

(** A pattern that can be joined and parsed back: not empty, no pipe. *)
Definition plain_pattern (p : string) : bool :=
  (negb (String.eqb p "") && negb (has_char "|" p))%bool.

(** How many values of a property list pass a test. *)
Definition census {A : Type} (f : A -> bool) (l : list (string * A)) : nat :=
  List.length (filter (fun slot => f (snd slot)) l).

(** ** Strings: [split] and [join] *)

Lemma append_empty_r (s : string) : (s ++ "")%string = s.
Proof. induction s as [|c s IH]; simpl; [reflexivity | now rewrite IH]. Qed.

Lemma append_assoc (a b c : string) :
  ((a ++ b) ++ c)%string = (a ++ (b ++ c))%string.
Proof. induction a as [|x a IH]; simpl; [reflexivity | now rewrite IH]. Qed.

Lemma strip_prefix_sound (p s rest : string) :
  strip_prefix p s = Some rest -> s = (p ++ rest)%string.
Proof.
  revert s; induction p as [|a p IH]; intros s H; simpl in H.
  - now inversion H.
  - destruct s as [|b s]; [discriminate|].
    destruct (Ascii.eqb a b) eqn:E; [|discriminate].
    apply Ascii.eqb_eq in E; subst b. simpl. f_equal. now apply IH.
Qed.

Lemma strip_prefix_shorter (p s rest : string) :
  p <> "" -> strip_prefix p s = Some rest ->
  String.length rest < String.length s.
Proof.
  intros Hp H. apply strip_prefix_sound in H. subst s.
  destruct p as [|a p]; [contradiction|]. simpl.
  clear Hp. induction p as [|b p IH]; simpl; lia.
Qed.

Lemma split_from_nonempty (n : nat) (sep cur s : string) :
  split_from n sep cur s <> [].
Proof.
  revert cur s; induction n as [|n IH]; intros cur s;
    destruct s as [|c s]; simpl; try discriminate.
  destruct (strip_prefix sep (String c s)); [discriminate | apply IH].
Qed.

Lemma join_cons (sep x : string) (l : list string) :
  l <> [] -> join sep (x :: l) = (x ++ sep ++ join sep l)%string.
Proof. destruct l; [contradiction | reflexivity]. Qed.

(** Joining the pieces of a split gives the string back, whatever the
    separator. *)
Lemma join_split_from (n : nat) (sep cur s : string) :
  join sep (split_from n sep cur s) = (cur ++ s)%string.
Proof.
  revert cur s; induction n as [|n IH]; intros cur s;
    destruct s as [|c s]; simpl; try reflexivity;
    try (now rewrite append_empty_r).
  destruct (strip_prefix sep (String c s)) as [rest|] eqn:E.
  - rewrite join_cons by apply split_from_nonempty.
    rewrite IH. apply strip_prefix_sound in E. now rewrite E.
  - rewrite IH, append_assoc. reflexivity.
Qed.

Lemma join_split (sep s : string) : join sep (split sep s) = s.
Proof. unfold split. now rewrite join_split_from. Qed.

(** The fuel [split] starts with is enough: more of it changes nothing. *)
Lemma split_from_fuel (sep : string) (n m : nat) (cur s : string) :
  sep <> "" -> String.length s <= n -> String.length s <= m ->
  split_from n sep cur s = split_from m sep cur s.
Proof.
  intros Hsep. revert m cur s.
  induction n as [|n IH]; intros m cur s Hn Hm;
    destruct s as [|c s]; destruct m as [|m]; simpl in *;
    try reflexivity; try lia.
  destruct (strip_prefix sep (String c s)) as [rest|] eqn:E.
  - f_equal. apply strip_prefix_shorter in E; [|assumption]. simpl in E.
    apply IH; lia.
  - apply IH; lia.
Qed.

Lemma filter_all {A} (f : A -> bool) (l : list A) :
  forallb f l = true -> filter f l = l.
Proof.
  induction l as [|x l IH]; simpl; [reflexivity|].
  intros H. apply andb_true_iff in H as [Hx Hl].
  rewrite Hx, IH by assumption. reflexivity.
Qed.

Lemma parse_no_empty (s : string) : ~ In "" (parseGlobMultiPattern s).
Proof.
  unfold parseGlobMultiPattern. intros H.
  apply filter_In in H as [_ H]. discriminate.
Qed.


(** ** Property lists *)

Section PropFacts.
Context {A : Type}.
Implicit Types (k : string) (v : A) (l : list (string * A)).

Lemma lookup_app k l l' :
  lookup k (l ++ l') =
  match lookup k l with Some x => Some x | None => lookup k l' end.
Proof.
  induction l as [|[k0 v0] l IH]; simpl; [reflexivity|].
  destruct (String.eqb k0 k); [reflexivity | apply IH].
Qed.

Lemma lookup_prop_replace k k' v l :
  lookup k' (prop_replace k v l) =
  if String.eqb k k'
  then match lookup k l with Some _ => Some v | None => None end
  else lookup k' l.
Proof.
  induction l as [|[k0 v0] l IH]; simpl.
  - now destruct (String.eqb k k').
  - destruct (String.eqb k0 k) eqn:E0; simpl.
    + apply String.eqb_eq in E0; subst k0.
      destruct (String.eqb k k'); reflexivity.
    + rewrite IH. destruct (String.eqb k k') eqn:E; [|reflexivity].
      apply String.eqb_eq in E; subst k'. now rewrite E0.
Qed.

Lemma lookup_insert_index n k k' v l :
  lookup k l = None ->
  lookup k' (insert_index n k v l) =
  if String.eqb k k' then Some v else lookup k' l.
Proof.
  induction l as [|[k0 v0] l IH]; simpl; intros H.
  - reflexivity.
  - destruct (String.eqb k0 k) eqn:E0; [discriminate|].
    destruct (array_index k0) as [m|]; [destruct (N.ltb m n)|]; simpl;
      try reflexivity.
    rewrite (IH H).
    destruct (String.eqb k k') eqn:E; [|reflexivity].
    apply String.eqb_eq in E; subst k'. now rewrite E0.
Qed.

Lemma lookup_prop_create k k' v l :
  lookup k l = None ->
  lookup k' (prop_create k v l) =
  if String.eqb k k' then Some v else lookup k' l.
Proof.
  intros H. unfold prop_create. destruct (array_index k) as [n|].
  - now apply lookup_insert_index.
  - rewrite lookup_app. simpl.
    destruct (String.eqb k k') eqn:E.
    + apply String.eqb_eq in E; subst k'. now rewrite H.
    + now destruct (lookup k' l).
Qed.

(** Reading after [o[k] = v]. *)
Lemma lookup_prop_set k k' v l :
  lookup k' (prop_set k v l) =
  if String.eqb k k' then Some v else lookup k' l.
Proof.
  unfold prop_set, has_own. destruct (lookup k l) eqn:E.
  - rewrite lookup_prop_replace, E. reflexivity.
  - now apply lookup_prop_create.
Qed.

(** Reading after [delete o[k]]. *)
Lemma lookup_prop_delete k k' l :
  lookup k' (prop_delete k l) =
  if String.eqb k k' then None else lookup k' l.
Proof.
  induction l as [|[k0 v0] l IH]; simpl.
  - now destruct (String.eqb k k').
  - destruct (String.eqb k0 k) eqn:E0; simpl.
    + apply String.eqb_eq in E0; subst k0. rewrite IH.
      destruct (String.eqb k k'); reflexivity.
    + rewrite IH. destruct (String.eqb k k') eqn:E; [|reflexivity].
      apply String.eqb_eq in E; subst k'. now rewrite E0.
Qed.

Variable P : string * A -> Prop.




End PropFacts.

Lemma prop_get_prop_set (k k' : string) (v : value) (o : props) :
  prop_get k' (prop_set k v o) =
  if String.eqb k k' then v else prop_get k' o.
Proof.
  unfold prop_get. rewrite lookup_prop_set.
  now destruct (String.eqb k k').
Qed.

Lemma prop_get_prop_delete (k k' : string) (o : props) :
  prop_get k' (prop_delete k o) =
  if String.eqb k k' then VUndefined else prop_get k' o.
Proof.
  unfold prop_get. rewrite lookup_prop_delete.
  now destruct (String.eqb k k').
Qed.

Lemma strings_of_map_VStr (p : list string) :
  flat_map (fun v => match v with VStr s => [s] | _ => [] end) (map VStr p) = p.
Proof. induction p as [|x p IH]; simpl; [reflexivity | now rewrite IH]. Qed.

(** The patterns a registration writes are the patterns resolution reads. *)
Lemma patterns_of_prop_set (p : list string) (r : props) :
  patterns_of (prop_set "$p" (VArr (map VStr p)) r) = p.
Proof.
  unfold patterns_of. rewrite lookup_prop_set. simpl.
  apply strings_of_map_VStr.
Qed.

(** ** Key normalization *)

Lemma no_empty_forallb (l : list string) :
  ~ In "" l -> forallb (fun pattern => negb (String.eqb pattern "")) l = true.
Proof.
  induction l as [|x l IH]; simpl; intros H; [reflexivity|].
  apply andb_true_iff. split.
  - destruct (String.eqb x "") eqn:E; [|reflexivity].
    apply String.eqb_eq in E. exfalso. apply H. now left.
  - apply IH. intros Hin. apply H. now right.
Qed.

(** C6: a key none of whose segments between [" | "] separators is empty
    is left unchanged by parsing it and joining the patterns again. *)
Theorem stringify_parse_id (k : string) :
  ~ In "" (split " | " k) ->
  stringifyGlobMultiPattern (parseGlobMultiPattern k) = k.
Proof.
  intros H. unfold stringifyGlobMultiPattern, parseGlobMultiPattern.
  rewrite filter_all by now apply no_empty_forallb.
  apply join_split.
Qed.

Lemma stringify_parse_id_witness :
  ~ In "" (split " | " "locked | lockedB") /\
  stringifyGlobMultiPattern (parseGlobMultiPattern "locked | lockedB")
  = "locked | lockedB".
Proof.
  assert (H : ~ In "" (split " | " "locked | lockedB")).
  { simpl. intros [H | [H | []]]; discriminate. }
  split; [exact H | exact (stringify_parse_id "locked | lockedB" H)].
Defined.

(** ** The boundary hook *)

(** C10: [handleResourcePath] throws its type error exactly when the
    argument is not a string, and returns [null] for every string, whatever
    the provider holds. *)
Theorem handleResourcePath_contract (this : t) (v : value) :
  (handleResourcePath this v = Throw (TypeError "resourcePath is no string")
   <-> isString v = false) /\
  (handleResourcePath this v = Ok VNull <-> isString v = true) /\
  (forall s, handleResourcePath this (VStr s) = Ok VNull).
Proof.
  unfold handleResourcePath.
  repeat split; try (destruct v; simpl; intros; congruence).
Qed.

(** ** Registration *)

Lemma useRule_ok (this : t) (g : string) (rule : value) (r : props) :
  as_rule rule = Some r ->
  _useRule this (VStr g) rule =
  let p := parseGlobMultiPattern g in
  let k := stringifyGlobMultiPattern p in
  Ok (k, store_rule k (prop_set "$p" (VArr (map VStr p)) r)
           (count_action (prop_get "action" r) this)).
Proof.
  intros H. unfold _useRule. rewrite H. cbv zeta.
  now rewrite prop_get_prop_set.
Qed.

Lemma useRule_inv (this this' : t) (globs rule : value) (k : string) :
  _useRule this globs rule = Ok (k, this') ->
  exists g r,
    globs = VStr g /\ as_rule rule = Some r /\
    k = stringifyGlobMultiPattern (parseGlobMultiPattern g) /\
    this' = store_rule k (prop_set "$p" (VArr (map VStr (parseGlobMultiPattern g))) r)
              (count_action (prop_get "action" r) this).
Proof.
  intros H. destruct globs; try discriminate.
  destruct (as_rule rule) as [r|] eqn:E.
  - rewrite (useRule_ok this s rule r E) in H. cbv zeta in H.
    inversion H; subst. now exists s, r.
  - unfold _useRule in H. rewrite E in H. discriminate.
Qed.

(** C8: one registration adds exactly one to the counter of its action's
    kind (callable, string, [false]) and leaves the other counters alone;
    with action [true] or no action, no counter moves. *)
Theorem useRule_counts (this : t) (g : string) (rule : value) (r : props) :
  as_rule rule = Some r ->
  exists k this',
    _useRule this (VStr g) rule = Ok (k, this') /\
    counted_once (prop_get "action" r) this this'.
Proof.
  intros H. rewrite (useRule_ok this g rule r H). cbv zeta.
  eexists _, _. split; [reflexivity|].
  unfold counted_once, count_action.
  destruct (prop_get "action" r) as [| |[|]| | | | | |]; simpl;
    repeat split; intros; try discriminate; try reflexivity;
    match goal with H : _ \/ _ |- _ => destruct H; discriminate end.
Qed.

Lemma useRule_counts_witness :
  exists k this',
    _useRule (fresh "app") (VStr "dynamicDir/") (VObj [("action", VFun 0)])
    = Ok (k, this') /\
    counted_once (VFun 0) (fresh "app") this'.
Proof.
  exact (useRule_counts (fresh "app") "dynamicDir/"
           (VObj [("action", VFun 0)]) [("action", VFun 0)] eq_refl).
Defined.

Lemma rules_count_action (a : value) (this : t) :
  _rules (count_action a this) = _rules this.
Proof.
  unfold count_action.
  destruct (isFunction a); [reflexivity|].
  destruct (isString a); [reflexivity|].
  now destruct a as [| |[|]| | | | | |].
Qed.

(** A key that is new to the store, is not an array index and is not
    ["__proto__"] goes to the end of the enumeration. *)
Lemma own_store_new_key (k : string) (r : props) (this : t) :
  has_own k (own (_rules this)) = false ->
  String.eqb k "__proto__" = false ->
  array_index k = None ->
  own (_rules (store_rule k r this)) = own (_rules this) ++ [(k, r)].
Proof.
  intros H1 H2 H3. unfold store_rule, rules_assign, prop_create. simpl.
  now rewrite H1, H2, H3.
Qed.

(** ** Resolution *)

Section ResolutionFacts.
Variable multimatch : string -> list string -> list string.
Variable normalize : string -> string.

Lemma scan_app (path : string) (l l' : list (string * props)) :
  scan multimatch path (l ++ l') =
  fold_left (visit multimatch path) l' (scan multimatch path l).
Proof. unfold scan. apply fold_left_app. Qed.

Lemma getRulesFor_string (this : t) (p : string) :
  getRulesFor multimatch normalize this (VStr p) =
  let path := normalize p in
  let res := scan multimatch path (own (_rules this)) in
  Ok (prop_set "$target" (VStr path)
        (prop_set "$ps" (VArr (map VStr (fst res)))
           (prop_delete "$p" (snd res)))).
Proof.
  unfold getRulesFor. simpl. cbv zeta.
  now destruct (scan multimatch (normalize p) (own (_rules this))).
Qed.

End ResolutionFacts.

(** Every own property of the source ends up on the target of
    [_.extend], the last one of a name winning. *)
Lemma lookup_extend (f : string) (c r : props) :
  lookup f (extend c r) =
  match lookup f (rev r) with Some v => Some v | None => lookup f c end.
Proof.
  unfold extend. revert c. induction r as [|[k v] r IH]; intros c; simpl.
  - reflexivity.
  - rewrite IH, lookup_app, lookup_prop_set. simpl.
    destruct (lookup f (rev r)); [reflexivity|].
    now destruct (String.eqb k f).
Qed.

(** A bare action registered under a key the store enumerates last is
    the action of every path its patterns match, whatever the matcher. *)
Lemma new_rule_applies (multimatch : string -> list string -> list string)
  (normalize : string -> string) (this : t) (g p : string) (a : value) :
  let k := stringifyGlobMultiPattern (parseGlobMultiPattern g) in
  (isFunction a || isString a || isBoolean a)%bool = true ->
  has_own k (own (_rules this)) = false ->
  String.eqb k "__proto__" = false ->
  array_index k = None ->
  Nat.ltb 0 (List.length (multimatch (normalize p) (parseGlobMultiPattern g)))
  = true ->
  exists this' record,
    _useRule this (VStr g) a = Ok (k, this') /\
    getRulesFor multimatch normalize this' (VStr p) = Ok record /\
    prop_get "action" record = a.
Proof.
  cbv zeta. intros Ha Hnew Hproto Hindex Hmatch.
  assert (Hr : as_rule a = Some [("action", a)]).
  { unfold as_rule. now rewrite Ha. }
  rewrite (useRule_ok this g a _ Hr). cbv zeta.
  eexists _, _. split; [reflexivity|].
  rewrite getRulesFor_string. cbv zeta.
  rewrite own_store_new_key; try assumption;
    [| now rewrite rules_count_action].
  rewrite rules_count_action, scan_app. split; [reflexivity|].
  cbn [fold_left]. unfold visit. cbn [fst snd].
  rewrite patterns_of_prop_set, Hmatch. cbn [fst snd].
  rewrite !prop_get_prop_set, prop_get_prop_delete. simpl.
  rewrite !prop_get_prop_set. reflexivity.
Qed.

(** C5: once a rule is registered under the new key ["locked | lockedB"]
    with action [false], resolving ["locked/"] and resolving ["lockedB/"]
    both apply that rule and give a record whose action is [false]. *)
Theorem multi_pattern_lock (this : t) :
  has_own "locked | lockedB" (own (_rules this)) = false ->
  exists k this',
    _useRule this (VStr "locked | lockedB") (VBool false) = Ok (k, this') /\
    exists a b,
      resolveRulesFor this' (VStr "locked/") = Ok a /\
      prop_get "action" a = VBool false /\
      resolveRulesFor this' (VStr "lockedB/") = Ok b /\
      prop_get "action" b = VBool false.
Proof.
  intros Hnew.
  destruct (new_rule_applies Lib.multimatch Lib.normalize this
              "locked | lockedB" "locked/" (VBool false)
              eq_refl Hnew eq_refl eq_refl eq_refl)
    as (this' & a & Hreg & Ha & Haction).
  destruct (new_rule_applies Lib.multimatch Lib.normalize this
              "locked | lockedB" "lockedB/" (VBool false)
              eq_refl Hnew eq_refl eq_refl eq_refl)
    as (this'' & b & Hreg' & Hb & Hbaction).
  rewrite Hreg in Hreg'. inversion Hreg'; subst this''.
  exists "locked | lockedB", this'. split; [exact Hreg|].
  exists a, b. repeat split; assumption.
Qed.

Lemma multi_pattern_lock_witness :
  exists k this',
    _useRule (fresh "app") (VStr "locked | lockedB") (VBool false)
    = Ok (k, this') /\
    exists a b,
      resolveRulesFor this' (VStr "locked/") = Ok a /\
      prop_get "action" a = VBool false /\
      resolveRulesFor this' (VStr "lockedB/") = Ok b /\
      prop_get "action" b = VBool false.
Proof. exact (multi_pattern_lock (fresh "app") eq_refl). Defined.

(** ** The store after registrations *)







(** C1 fails on the code: a second registration under the same canonical
    key replaces the stored rule and counts once more, so the lock counter
    is 2 over a store that holds one lock. *)
Theorem reregistration_counts_again :
  exists k this1 this2,
    _useRule (fresh "app") (VStr "lockedDir/") (VBool false) = Ok (k, this1) /\
    _useRule this1 (VStr "lockedDir/") (VBool false) = Ok (k, this2) /\
    map fst (own (_rules this2)) = ["lockedDir/"] /\
    staticLockCount this2 = 2 /\
    stored_with is_lock this2 = 1.
Proof. eexists _, _, _. repeat split. Qed.

(** A second registration under a key of the store writes the slot where it
    is: the keys and their order stay. *)
Lemma keys_prop_replace {A} (k : string) (v : A) (l : list (string * A)) :
  map fst (prop_replace k v l) = map fst l.
Proof.
  induction l as [|[k0 v0] l IH]; simpl; [reflexivity|].
  destruct (String.eqb k0 k); simpl; [reflexivity | now rewrite IH].
Qed.

Lemma reregistration_replaces (this : t) (g : string) (rule : value) (r : props) :
  let p := parseGlobMultiPattern g in
  let k := stringifyGlobMultiPattern p in
  let r' := prop_set "$p" (VArr (map VStr p)) r in
  as_rule rule = Some r ->
  has_own k (own (_rules this)) = true ->
  exists this',
    _useRule this (VStr g) rule = Ok (k, this') /\
    lookup k (own (_rules this')) = Some r' /\
    map fst (own (_rules this')) = map fst (own (_rules this)).
Proof.
  cbv zeta. intros Hr Hown. rewrite (useRule_ok this g rule r Hr). cbv zeta.
  eexists. split; [reflexivity|]. simpl.
  unfold rules_assign. rewrite rules_count_action, Hown. simpl.
  split; [|apply keys_prop_replace].
  rewrite lookup_prop_replace, String.eqb_refl.
  unfold has_own in Hown. now destruct (lookup _ (own (_rules this))).
Qed.

(** ** Construction *)

Lemma useRule_throw (this : t) (g : string) (rule : value) :
  as_rule rule = None ->
  _useRule this (VStr g) rule
  = Throw (TypeError "rule is no supported Rule type/config").
Proof. intros H. unfold _useRule. now rewrite H. Qed.

Lemma useRules_loop_result (entries : props) (this : t) :
  if forallb supported_rule entries
  then exists this', useRules_loop this entries = Ok this'
  else useRules_loop this entries
       = Throw (TypeError "rule is no supported Rule type/config").
Proof.
  revert this. induction entries as [|[pattern rule] rest IH]; intros this.
  - simpl. now exists this.
  - simpl. unfold supported_rule at 1. simpl.
    destruct (as_rule rule) as [r|] eqn:E; simpl.
    + rewrite (useRule_ok this pattern rule r E). cbv zeta. simpl. apply IH.
    + now rewrite (useRule_throw this pattern rule E).
Qed.

Lemma useRules_result (this : t) (ruleset : value) :
  if acceptable_ruleset ruleset
  then exists this', _useRules this ruleset = Ok this'
  else exists msg, _useRules this ruleset = Throw (TypeError msg) /\
                   msg <> "appId is no string".
Proof.
  unfold acceptable_ruleset, _useRules.
  destruct (truthy ruleset) eqn:T; simpl; [|now exists this].
  destruct ruleset as [| | | | | | |entries|];
    try (eexists; split; [reflexivity | discriminate]).
  pose proof (useRules_loop_result entries this) as H.
  destruct (forallb supported_rule entries); [exact H|].
  eexists; split; [exact H | discriminate].
Qed.

Lemma lookup_rev_none {A} (k : string) (l : list (string * A)) :
  lookup k l = None -> lookup k (rev l) = None.
Proof.
  induction l as [|[k0 v0] l IH]; simpl; [reflexivity|].
  destruct (String.eqb k0 k) eqn:E; [discriminate|].
  intros H. rewrite lookup_app, (IH H). simpl. now rewrite E.
Qed.

(** C7, as the code has it: a non-string [appId] always gives the type
    error; with a string [appId] construction succeeds exactly when the
    rules that the config brings are falsy or a plain object of supported
    rule values, and gives a type error otherwise; without a config, or
    with a config that has no [rules], it succeeds. *)
Theorem construction_contract (config : value) :
  (forall appId,
     new appId config = Throw (TypeError "appId is no string")
     <-> isString appId = false) /\
  (forall id,
     (exists this, new (VStr id) config = Ok this)
     <-> acceptable_ruleset (prop_get "rules" (with_defaults config)) = true) /\
  (forall id,
     (exists msg, new (VStr id) config = Throw (TypeError msg))
     <-> acceptable_ruleset (prop_get "rules" (with_defaults config)) = false) /\
  (forall id, new (VStr id) VUndefined = Ok (fresh id)) /\
  (forall id c, lookup "rules" c = None -> new (VStr id) (VObj c) = Ok (fresh id)).
Proof.
  pose proof (fun id => useRules_result (fresh id)
                (prop_get "rules" (with_defaults config))) as R.
  split; [|split; [|split; [|split]]].
  - intros appId. split.
    + destruct appId as [| | | |id| | | |]; try reflexivity. simpl.
      specialize (R id). destruct (acceptable_ruleset _).
      * destruct R as [this' H]. rewrite H. discriminate.
      * destruct R as (msg & H & Hmsg). rewrite H. intros E. congruence.
    + destruct appId; try reflexivity. discriminate.
  - intros id. specialize (R id). simpl. split.
    + intros [this H]. destruct (acceptable_ruleset _); [reflexivity|].
      destruct R as (msg & H' & _). congruence.
    + intros E. now rewrite E in R.
  - intros id. specialize (R id). simpl. split.
    + intros [msg H]. destruct (acceptable_ruleset _); [|reflexivity].
      destruct R as [this' H']. congruence.
    + intros E. rewrite E in R. destruct R as (msg & H' & _). now exists msg.
  - reflexivity.
  - intros id c H. unfold new, with_defaults, prop_get.
    rewrite lookup_extend, (lookup_rev_none _ _ H). reflexivity.
Qed.

(** C7 fails as stated: a string [appId] with a config whose [rules] is a
    number does not construct. *)
Lemma string_appId_may_fail :
  new (VStr "app") (VObj [("rules", VNum 42)])
  = Throw (TypeError "ruleset is no plain Object").
Proof. reflexivity. Qed.

(** ** Exact lookup *)

(** C9 fails on the code: on a provider without any rule, the key
    ["constructor"] is not in the store and still [getRule] does not give
    [undefined]: it gives what every object inherits under that name. *)
Theorem getRule_finds_inherited_member :
  exists this,
    new (VStr "app") VUndefined = Ok this /\
    own (_rules this) = [] /\
    getRule this (VStr "constructor") = Ok (Native "constructor").
Proof. eexists. repeat split. Qed.

Lemma rules_get_assign (k : string) (r : props) (o : rules_object) :
  lookup "__proto__" r = None ->
  rules_get k (rules_assign k r o) = Val (VObj r).
Proof.
  intros Hr. unfold rules_assign, has_own.
  destruct (lookup k (own o)) eqn:Eo.
  - unfold rules_get. simpl.
    now rewrite lookup_prop_replace, String.eqb_refl, Eo.
  - assert (Hc : rules_get k (mkRules (prop_create k r (own o)) (proto o))
                 = Val (VObj r)).
    { unfold rules_get. simpl.
      now rewrite lookup_prop_create, String.eqb_refl. }
    assert (Hp : String.eqb k "__proto__" = true ->
                 rules_get k (mkRules (own o) (Some r)) = Val (VObj r)).
    { intros E. unfold rules_get. simpl. rewrite Eo, E.
      apply String.eqb_eq in E; subst k. now rewrite Hr. }
    destruct (String.eqb k "__proto__") eqn:E; [|exact Hc].
    destruct (proto o) as [r0|]; [|now apply Hp].
    destruct (lookup k r0); [exact Hc | now apply Hp].
Qed.

(** The first half of C9: after a registration with a bare action (a
    callable, a string, [true] or [false]) under a key, [getRule] of that
    key gives a rule whose action is the registered one. *)
Lemma getRule_registered (this : t) (g : string) (a : value) :
  (isFunction a || isString a || isBoolean a)%bool = true ->
  exists k this' stored,
    _useRule this (VStr g) a = Ok (k, this') /\
    getRule this' (VStr g) = Ok (Val (VObj stored)) /\
    prop_get "action" stored = a.
Proof.
  intros H.
  assert (Hr : as_rule a = Some [("action", a)]).
  { unfold as_rule. now rewrite H. }
  rewrite (useRule_ok this g a _ Hr). cbv zeta.
  eexists _, _, _. split; [reflexivity|].
  unfold getRule. simpl. rewrite rules_count_action.
  split; [rewrite rules_get_assign; reflexivity | reflexivity].
Qed.

(** A key that is neither in the store nor a name every object inherits
    gives [undefined]. *)
Lemma getRule_absent (this : t) (g : string) :
  let k := stringifyGlobMultiPattern (parseGlobMultiPattern g) in
  proto (_rules this) = None ->
  lookup k (own (_rules this)) = None ->
  is_object_prototype_name k = false ->
  getRule this (VStr g) = Ok (Val VUndefined).
Proof.
  cbv zeta. intros Hp Ho Hn. unfold getRule, rules_get, object_prototype_get.
  now rewrite Ho, Hp, Hn.
Qed.

(** ** Path resolution *)

Section Scan.
Variable multimatch : string -> list string -> list string.
Variable normalize : string -> string.

(** The scan visits the slots in the order the store enumerates them; it
    collects the keys of the matching slots and merges their rules. *)
Lemma fold_visit (path : string) (slots : list (string * props))
  (acc : list string * props) :
  fold_left (visit multimatch path) slots acc =
  (fst acc ++ map fst (filter (matches multimatch path) slots),
   fold_left extend (map snd (filter (matches multimatch path) slots)) (snd acc)).
Proof.
  revert acc. induction slots as [|slot slots IH]; intros [ap c];
    cbn [fold_left filter].
  - simpl. now rewrite app_nil_r.
  - rewrite IH.
    change (visit multimatch path (ap, c) slot)
      with (if matches multimatch path slot
            then (ap ++ [fst slot], extend c (snd slot)) else (ap, c)).
    destruct (matches multimatch path slot); cbn [fst snd map fold_left];
      [rewrite <- app_assoc|]; reflexivity.
Qed.

Lemma scan_spec (path : string) (slots : list (string * props)) :
  scan multimatch path slots =
  (map fst (filter (matches multimatch path) slots),
   fold_left extend (map snd (filter (matches multimatch path) slots)) []).
Proof. unfold scan. now rewrite fold_visit. Qed.

(** The merge is field by field, and a rule merged later wins. *)
Lemma merge_last_wins (f : string) (rules : list props) (r c : props) :
  lookup f (fold_left extend (rules ++ [r]) c) =
  match lookup f (rev r) with
  | Some v => Some v
  | None => lookup f (fold_left extend rules c)
  end.
Proof. rewrite fold_left_app. simpl. apply lookup_extend. Qed.

(** What [getRulesFor] does give for every string path, with a matcher
    and a normalizer that return: a record without [$p]; its [$ps] lists
    the keys of exactly the matching rules, in the order the store
    enumerates them; its [$target] is the normalized path; and when no rule
    matches it has no action and an empty [$ps]. *)
Theorem getRulesFor_total (this : t) (p : string) :
  exists a,
    getRulesFor multimatch normalize this (VStr p) = Ok a /\
    lookup "$p" a = None /\
    prop_get "$ps" a
    = VArr (map VStr (map fst (filter (matches multimatch (normalize p))
                                      (own (_rules this))))) /\
    prop_get "$target" a = VStr (normalize p) /\
    (filter (matches multimatch (normalize p)) (own (_rules this)) = [] ->
     lookup "action" a = None /\ prop_get "$ps" a = VArr []).
Proof.
  rewrite getRulesFor_string. cbv zeta. rewrite scan_spec. simpl fst. simpl snd.
  eexists. split; [reflexivity|].
  split; [|split; [|split]].
  - rewrite !lookup_prop_set, lookup_prop_delete. reflexivity.
  - rewrite !prop_get_prop_set. reflexivity.
  - rewrite prop_get_prop_set. reflexivity.
  - intros ->. split; reflexivity.
Qed.

End Scan.

(** C4 fails on the code, by the enumeration order of C2: the rules are
    not collected top down, the rule under ["7"] is registered last and
    listed first in [$ps]. *)
Theorem applied_patterns_out_of_registration_order :
  exists this1 this2 a,
    _useRule (fresh "app") (VStr "7 | 7") (VStr "x/") = Ok ("7 | 7", this1) /\
    _useRule this1 (VStr "7") (VStr "y/") = Ok ("7", this2) /\
    resolveRulesFor this2 (VStr "7") = Ok a /\
    prop_get "$ps" a = VArr [VStr "7"; VStr "7 | 7"].
Proof. eexists _, _, _. repeat split. Qed.

(** C2 fails on the code.  With the ruleset [{"1 | 1": false, "1 | ": true}]
    the second registration is stored under ["1"], which the store
    enumerates first, and with [{"a": true, "a | a": false, "a | ": true}]
    the third registration is written into the slot of the first; both
    times the rule registered last applies to the path and the record
    carries the action of an older rule. *)
Theorem youngest_rule_is_overridden :
  (exists this a,
     new (VStr "app")
         (VObj [("rules", VObj [("1 | 1", VBool false); ("1 | ", VBool true)])])
     = Ok this /\
     map fst (own (_rules this)) = ["1"; "1 | 1"] /\
     resolveRulesFor this (VStr "1") = Ok a /\
     prop_get "$ps" a = VArr [VStr "1"; VStr "1 | 1"] /\
     prop_get "action" a = VBool false) /\
  (exists this a,
     new (VStr "app")
         (VObj [("rules", VObj [("a", VStr "old/"); ("a | a", VBool false);
                                ("a | ", VStr "new/")])])
     = Ok this /\
     map fst (own (_rules this)) = ["a"; "a | a"] /\
     resolveRulesFor this (VStr "a") = Ok a /\
     prop_get "$ps" a = VArr [VStr "a"; VStr "a | a"] /\
     prop_get "action" a = VBool false).
Proof. split; eexists _, _; repeat split. Qed.

(** The example of C2: ["locked/"] locked, then ["locked/unlocked"]
    unlocked. *)
Lemma locked_unlocked_example :
  exists this a b,
    new (VStr "app")
        (VObj [("rules", VObj [("locked/", VBool false);
                               ("locked/unlocked", VBool true)])])
    = Ok this /\
    resolveRulesFor this (VStr "locked/unlocked/") = Ok a /\
    prop_get "action" a = VBool true /\
    resolveRulesFor this (VStr "locked/") = Ok b /\
    prop_get "action" b = VBool false.
Proof. eexists _, _, _. repeat split. Qed.

(** The ruleset of the test suite. *)
Lemma test_suite_ruleset :
  exists this a b c,
    new (VStr "app")
        (VObj [("rules",
                VObj [("dynamicDir/", VFun 0);
                      ("redirect_from/", VStr "redirect_to/");
                      ("lockedDir/", VBool false);
                      ("unlockedDir/", VBool true);
                      ("locked | lockedB", VBool false);
                      ("locked/unlocked", VBool true)])])
    = Ok this /\
    (dynamicHandlerCount this, staticRerouteCount this, staticLockCount this)
    = (1, 1, 2) /\
    resolveRulesFor this (VStr "locked/") = Ok a /\
    prop_get "action" a = VBool false /\
    resolveRulesFor this (VStr "lockedB/") = Ok b /\
    prop_get "action" b = VBool false /\
    resolveRulesFor this (VStr "locked/unlocked/") = Ok c /\
    prop_get "action" c = VBool true.
Proof. eexists _, _, _, _. repeat split. Qed.

(** ** The canonical key is a fixed point *)

Lemma strip_prefix_app (sep r : string) :
  strip_prefix sep (sep ++ r)%string = Some r.
Proof.
  induction sep as [|a sep IH]; simpl; [reflexivity|].
  now rewrite Ascii.eqb_refl.
Qed.

Lemma strip_prefix_none_prefix (sep a b : string) :
  strip_prefix sep (a ++ b)%string = None -> strip_prefix sep a = None.
Proof.
  destruct (strip_prefix sep a) as [y|] eqn:E; [|reflexivity].
  apply strip_prefix_sound in E. subst a.
  now rewrite append_assoc, strip_prefix_app.
Qed.

Lemma strip_prefix_none_long (sep a b : string) :
  String.length sep <= String.length a ->
  strip_prefix sep a = None -> strip_prefix sep (a ++ b)%string = None.
Proof.
  revert a. induction sep as [|c sep IH]; intros a Hlen H; simpl in *.
  - discriminate.
  - destruct a as [|c' a]; simpl in *; [lia|].
    destruct (Ascii.eqb c c'); [|reflexivity].
    apply IH; [lia | assumption].
Qed.

Lemma length_append (a b : string) :
  String.length (a ++ b)%string = String.length a + String.length b.
Proof. induction a as [|c a IH]; simpl; [reflexivity | now rewrite IH]. Qed.

Lemma no_match_snoc (sep cur s : string) (c : ascii) :
  no_match sep cur (String c s) ->
  strip_prefix sep (String c s) = None ->
  no_match sep (cur ++ String c "") s.
Proof.
  intros H Hc. induction cur as [|c0 cur IH]; simpl in *.
  - now split.
  - destruct H as [H0 H]. split; [|now apply IH].
    now rewrite append_assoc.
Qed.

Lemma no_match_shorter_tail (sep p t r : string) :
  no_match sep p (t ++ r) -> no_match sep p t.
Proof.
  induction p as [|c p IH]; simpl; [trivial|].
  intros [H0 H]. split; [|now apply IH].
  apply strip_prefix_none_prefix with (b := r).
  simpl. now rewrite append_assoc.
Qed.

Lemma no_match_longer_tail (sep p t r : string) :
  String.length sep <= String.length t ->
  no_match sep p t -> no_match sep p (t ++ r).
Proof.
  intros Hlen. induction p as [|c p IH]; simpl; [trivial|].
  intros [H0 H]. split; [|now apply IH].
  replace (String c (p ++ t ++ r)) with (String c (p ++ t) ++ r)%string
    by (simpl; now rewrite append_assoc).
  apply strip_prefix_none_long; [|assumption].
  simpl. rewrite length_append. lia.
Qed.

Lemma split_from_pieces_ok (sep : string) (n : nat) (cur s : string) :
  sep <> "" -> String.length s <= n ->
  no_match sep cur s -> pieces_ok sep (split_from n sep cur s).
Proof.
  intros Hsep. revert cur s.
  induction n as [|n IH]; intros cur s Hlen Hcur;
    destruct s as [|c s]; simpl in *; try lia;
    try (repeat split; [assumption | congruence]).
  destruct (strip_prefix sep (String c s)) as [rest|] eqn:E.
  - pose proof (strip_prefix_shorter _ _ _ Hsep E) as Hshort.
    pose proof (strip_prefix_sound _ _ _ E) as Hs. simpl in Hshort.
    repeat split.
    + apply no_match_shorter_tail with (r := String c s). exact Hcur.
    + intros _. apply no_match_shorter_tail with (r := rest).
      now rewrite <- Hs.
    + apply IH; [lia | destruct rest; exact I].
  - apply IH; [lia | now apply no_match_snoc].
Qed.

Lemma pieces_ok_filter (sep : string) (f : string -> bool) (l : list string) :
  pieces_ok sep l -> pieces_ok sep (filter f l).
Proof.
  induction l as [|p l IH]; simpl; [trivial|].
  intros (H1 & H2 & H3). destruct (f p); [|now apply IH].
  simpl. repeat split; [assumption | | now apply IH].
  intros Hne. apply H2. intros ->. now apply Hne.
Qed.

Lemma split_from_empty (n : nat) (sep cur : string) :
  split_from n sep cur "" = [cur].
Proof. now destruct n. Qed.

(** Splitting runs over a stretch where the separator does not start. *)
Lemma split_from_clean (sep p : string) (n : nat) (cur tail : string) :
  no_match sep p tail ->
  String.length (p ++ tail) <= n ->
  split_from n sep cur (p ++ tail) =
  split_from (n - String.length p) sep (cur ++ p) tail.
Proof.
  revert n cur. induction p as [|c p IH]; intros n cur H Hlen; simpl in *.
  - now rewrite Nat.sub_0_r, append_empty_r.
  - destruct H as [H0 H]. destruct n as [|n]; [lia|]. simpl.
    rewrite H0, IH by (assumption || lia).
    now rewrite append_assoc.
Qed.

Lemma split_from_sep (sep : string) (n : nat) (cur r : string) :
  sep <> "" -> String.length (sep ++ r) <= n ->
  split_from n sep cur (sep ++ r) = cur :: split sep r.
Proof.
  intros Hsep Hlen.
  pose proof (strip_prefix_app sep r) as E.
  rewrite length_append in Hlen.
  destruct sep as [|a sep]; [contradiction|]. simpl in Hlen.
  destruct n as [|n]; [lia|].
  change (String a sep ++ r)%string with (String a (sep ++ r)) in *.
  cbn [split_from]. rewrite E. f_equal.
  unfold split. apply split_from_fuel; [assumption | lia | lia].
Qed.

(** Joining pieces of that kind and splitting again gives the pieces. *)
Lemma split_join (sep : string) (l : list string) :
  sep <> "" -> l <> [] -> pieces_ok sep l -> split sep (join sep l) = l.
Proof.
  intros Hsep. induction l as [|p l IH]; [contradiction|].
  intros _ (H1 & H2 & H3). destruct l as [|q l].
  - simpl. unfold split.
    rewrite <- (append_empty_r p) at 2.
    rewrite split_from_clean;
      [| assumption | rewrite append_empty_r; lia].
    now rewrite split_from_empty.
  - rewrite join_cons by discriminate.
    unfold split at 1.
    rewrite split_from_clean; [| | lia].
    + rewrite split_from_sep; [| assumption |].
      * rewrite IH; [reflexivity | discriminate | assumption].
      * rewrite !length_append. lia.
    + apply no_match_longer_tail; [lia|]. apply H2. discriminate.
Qed.

Lemma filter_idem {A} (f : A -> bool) (l : list A) :
  filter f (filter f l) = filter f l.
Proof.
  induction l as [|x l IH]; simpl; [reflexivity|].
  destruct (f x) eqn:E; simpl; [now rewrite E, IH | assumption].
Qed.

Lemma parse_pieces_ok (g : string) : pieces_ok " | " (parseGlobMultiPattern g).
Proof.
  apply pieces_ok_filter. apply split_from_pieces_ok;
    [discriminate | lia | destruct g; exact I].
Qed.

Lemma parse_of_canonical (g : string) :
  parseGlobMultiPattern (stringifyGlobMultiPattern (parseGlobMultiPattern g))
  = parseGlobMultiPattern g.
Proof.
  pose proof (parse_pieces_ok g) as Hok.
  destruct (parseGlobMultiPattern g) as [|p l] eqn:E; [reflexivity|].
  unfold parseGlobMultiPattern at 1. unfold stringifyGlobMultiPattern.
  rewrite split_join; [| discriminate | discriminate | assumption].
  rewrite <- E. apply filter_idem.
Qed.

(** X1: Normalizing a key twice is normalizing it once, for every key: the
    patterns of the canonical key are the patterns of the key, and the
    canonical key is its own canonical key. *)
Theorem canonical_key_fixed (g : string) :
  let k := stringifyGlobMultiPattern (parseGlobMultiPattern g) in
  parseGlobMultiPattern k = parseGlobMultiPattern g /\
  stringifyGlobMultiPattern (parseGlobMultiPattern k) = k.
Proof.
  cbv zeta. rewrite parse_of_canonical. now split.
Qed.

Lemma no_match_head (sep p tail : string) :
  p <> "" -> no_match sep p tail -> strip_prefix sep (p ++ tail)%string = None.
Proof. destruct p; [contradiction | now intros _ [H _]]. Qed.

Lemma no_match_no_occurrence (sep a b : string) :
  sep <> "" -> no_match sep (a ++ sep ++ b) "" -> False.
Proof.
  intros Hsep. induction a as [|c a IH]; simpl.
  - intros H. apply no_match_head in H.
    + rewrite append_assoc, strip_prefix_app in H. discriminate.
    + destruct sep; [contradiction | discriminate].
  - intros [_ H]. now apply IH.
Qed.

Lemma pieces_ok_all (sep : string) (l : list string) :
  pieces_ok sep l -> Forall (fun p => no_match sep p "") l.
Proof.
  induction l as [|p l IH]; simpl; [constructor|].
  intros (H1 & _ & H3). constructor; [assumption | now apply IH].
Qed.

(** X2: No pattern that [parseGlobMultiPattern] returns is empty, and none
    contains the separator. *)
Theorem parsed_patterns_separator_free (g : string) :
  Forall (fun p => p <> "" /\
                   forall a b, p <> (a ++ " | " ++ b)%string)
         (parseGlobMultiPattern g).
Proof.
  pose proof (pieces_ok_all _ _ (parse_pieces_ok g)) as Hok.
  pose proof (parse_no_empty g) as Hne.
  rewrite Forall_forall in *. intros p Hp. split.
  - intros ->. now apply Hne.
  - intros a b ->. apply (no_match_no_occurrence " | " a b);
      [discriminate | now apply Hok].
Qed.

Lemma plain_no_match (p tail : string) :
  has_char "|" p = false ->
  tail = "" \/ (exists t, tail = String " " t) ->
  no_match " | " p tail.
Proof.
  intros Hp Ht. induction p as [|c p IH]; [exact I|].
  cbn [has_char] in Hp. apply orb_false_iff in Hp as [Hc Hp].
  split; [|now apply IH].
  cbn [append strip_prefix]. destruct (Ascii.eqb " " c); [|reflexivity].
  destruct p as [|c2 p].
  - cbn [append]. destruct Ht as [-> | [t ->]]; reflexivity.
  - cbn [has_char] in Hp. apply orb_false_iff in Hp as [Hc2 _].
    cbn [append strip_prefix]. now rewrite Hc2.
Qed.

Lemma plain_pieces_ok (l : list string) :
  forallb plain_pattern l = true -> pieces_ok " | " l.
Proof.
  induction l as [|p l IH]; simpl; [trivial|].
  intros H. apply andb_true_iff in H as [Hp Hl].
  unfold plain_pattern in Hp. apply andb_true_iff in Hp as [_ Hp].
  apply negb_true_iff in Hp.
  repeat split.
  - apply plain_no_match; [assumption | now left].
  - intros _. apply plain_no_match; [assumption | right; now eexists].
  - now apply IH.
Qed.

Lemma plain_nonempty (l : list string) :
  forallb plain_pattern l = true ->
  forallb (fun pattern => negb (String.eqb pattern "")) l = true.
Proof.
  induction l as [|p l IH]; simpl; [reflexivity|].
  intros H. apply andb_true_iff in H as [Hp Hl].
  unfold plain_pattern in Hp. apply andb_true_iff in Hp as [Hp _].
  now rewrite Hp, IH.
Qed.

(** X3: A list of patterns that are not empty and hold no pipe character is
    what parsing its canonical key gives back. *)
Theorem parse_stringify_plain (l : list string) :
  forallb plain_pattern l = true ->
  parseGlobMultiPattern (stringifyGlobMultiPattern l) = l.
Proof.
  intros H. destruct l as [|p l]; [reflexivity|].
  unfold parseGlobMultiPattern, stringifyGlobMultiPattern.
  rewrite split_join;
    [| discriminate | discriminate | now apply plain_pieces_ok].
  apply filter_all. now apply plain_nonempty.
Qed.

Lemma parse_stringify_plain_witness :
  parseGlobMultiPattern (stringifyGlobMultiPattern ["locked"; "lockedB/**"])
  = ["locked"; "lockedB/**"].
Proof. exact (parse_stringify_plain ["locked"; "lockedB/**"] eq_refl). Defined.

(** ** Registration and exact lookup together *)


(** X4: After a registration, [getRule] finds the stored rule (the rule that
    was given, with its patterns in [$p]) under the key the registration
    returned and under every key with the same canonical form. *)
Theorem getRule_after_useRule (this : t) (g : string) (rule : value) (r : props) :
  as_rule rule = Some r ->
  lookup "__proto__" r = None ->
  exists k this',
    _useRule this (VStr g) rule = Ok (k, this') /\
    let stored := prop_set "$p" (VArr (map VStr (parseGlobMultiPattern g))) r in
    prop_get "action" stored = prop_get "action" r /\
    getRule this' (VStr k) = Ok (Val (VObj stored)) /\
    forall g',
      stringifyGlobMultiPattern (parseGlobMultiPattern g')
      = stringifyGlobMultiPattern (parseGlobMultiPattern g) ->
      getRule this' (VStr g') = Ok (Val (VObj stored)).
Proof.
  intros Hr Hproto. rewrite (useRule_ok this g rule r Hr). cbv zeta.
  eexists _, _. split; [reflexivity|].
  assert (Hfind : forall g',
             stringifyGlobMultiPattern (parseGlobMultiPattern g')
             = stringifyGlobMultiPattern (parseGlobMultiPattern g) ->
             getRule
               (store_rule (stringifyGlobMultiPattern (parseGlobMultiPattern g))
                  (prop_set "$p" (VArr (map VStr (parseGlobMultiPattern g))) r)
                  (count_action (prop_get "action" r) this)) (VStr g')
             = Ok (Val (VObj (prop_set "$p"
                                (VArr (map VStr (parseGlobMultiPattern g))) r)))).
  { intros g' E. unfold getRule. rewrite E. simpl.
    rewrite rules_get_assign; [reflexivity|].
    now rewrite lookup_prop_set. }
  split; [now rewrite prop_get_prop_set|].
  split; [|exact Hfind].
  apply Hfind. now rewrite parse_of_canonical.
Qed.

Lemma getRule_after_useRule_witness :
  exists k this',
    _useRule (fresh "app") (VStr "a |  | b")
             (VObj [("action", VStr "c/"); ("fallbackIndex", VBool true)])
    = Ok (k, this') /\
    let stored :=
      prop_set "$p" (VArr (map VStr (parseGlobMultiPattern "a |  | b")))
               [("action", VStr "c/"); ("fallbackIndex", VBool true)] in
    prop_get "action" stored
    = prop_get "action" [("action", VStr "c/"); ("fallbackIndex", VBool true)] /\
    getRule this' (VStr k) = Ok (Val (VObj stored)) /\
    forall g',
      stringifyGlobMultiPattern (parseGlobMultiPattern g')
      = stringifyGlobMultiPattern (parseGlobMultiPattern "a |  | b") ->
      getRule this' (VStr g') = Ok (Val (VObj stored)).
Proof.
  exact (getRule_after_useRule (fresh "app") "a |  | b"
           (VObj [("action", VStr "c/"); ("fallbackIndex", VBool true)])
           [("action", VStr "c/"); ("fallbackIndex", VBool true)]
           eq_refl eq_refl).
Defined.



(** ** What every reachable provider satisfies *)

Lemma useRules_loop_inv (P : t -> Prop) :
  (forall this globs rule k this',
     P this -> _useRule this globs rule = Ok (k, this') -> P this') ->
  forall entries this this',
    P this -> useRules_loop this entries = Ok this' -> P this'.
Proof.
  intros Hstep. induction entries as [|[pattern rule] rest IH];
    intros this this' HP H; simpl in H.
  - now inversion H; subst.
  - destruct (_useRule this (VStr pattern) rule) as [[k this1]|] eqn:E;
      [|discriminate].
    simpl in H. apply (IH this1); [|assumption].
    eapply Hstep; eassumption.
Qed.

Lemma new_inv (P : t -> Prop) :
  (forall id, P (fresh id)) ->
  (forall this globs rule k this',
     P this -> _useRule this globs rule = Ok (k, this') -> P this') ->
  forall appId config this, new appId config = Ok this -> P this.
Proof.
  intros Hfresh Hstep appId config this. unfold new, _useRules.
  destruct appId as [| | | |id| | | |]; try discriminate.
  destruct (negb (truthy (prop_get "rules" (with_defaults config)))).
  - intros H; inversion H; subst. apply Hfresh.
  - destruct (prop_get "rules" (with_defaults config)); try discriminate.
    apply useRules_loop_inv; [assumption | apply Hfresh].
Qed.

Lemma reachable_inv (P : t -> Prop) :
  (forall id, P (fresh id)) ->
  (forall this globs rule k this',
     P this -> _useRule this globs rule = Ok (k, this') -> P this') ->
  forall this, reachable this -> P this.
Proof.
  intros Hfresh Hstep this H.
  induction H as [appId config this H | this globs rule k this' _ IH H].
  - eapply new_inv; eassumption.
  - eapply Hstep; eassumption.
Qed.

Section Census.
Context {A : Type}.
Variable f : A -> bool.

Lemma census_replace (k : string) (v : A) (l : list (string * A)) :
  census f (prop_replace k v l) <= census f l + (if f v then 1 else 0).
Proof.
  unfold census. induction l as [|[k0 v0] l IH]; simpl; [lia|].
  destruct (String.eqb k0 k); simpl.
  - destruct (f v), (f v0); simpl; lia.
  - destruct (f v0); simpl; lia.
Qed.

Lemma census_insert_index (n : N) (k : string) (v : A) (l : list (string * A)) :
  census f (insert_index n k v l) = census f l + (if f v then 1 else 0).
Proof.
  unfold census. induction l as [|[k0 v0] l IH]; simpl.
  - destruct (f v); reflexivity.
  - destruct (array_index k0) as [m|]; [destruct (N.ltb m n)|]; simpl;
      destruct (f v0) eqn:E0; simpl; try rewrite IH;
      destruct (f v); simpl; try rewrite E0; simpl; lia.
Qed.

Lemma census_create (k : string) (v : A) (l : list (string * A)) :
  census f (prop_create k v l) = census f l + (if f v then 1 else 0).
Proof.
  unfold prop_create. destruct (array_index k).
  - apply census_insert_index.
  - unfold census. rewrite filter_app, length_app. simpl.
    destruct (f v); reflexivity.
Qed.

End Census.

Lemma stored_with_store (test : value -> bool) (k : string) (r : props) (this : t) :
  stored_with test (store_rule k r this)
  <= stored_with test this + (if test (prop_get "action" r) then 1 else 0).
Proof.
  unfold stored_with, store_rule, rules_assign. simpl.
  pose proof (census_replace (fun r => test (prop_get "action" r)) k r
                (own (_rules this))) as Hr.
  pose proof (census_create (fun r => test (prop_get "action" r)) k r
                (own (_rules this))) as Hc.
  unfold census in Hr, Hc. simpl in Hr, Hc.
  destruct (has_own k (own (_rules this))); simpl; [exact Hr|].
  destruct (String.eqb k "__proto__").
  - destruct (proto (_rules this)) as [r0|]; [destruct (has_own k r0)|];
      simpl; lia.
  - simpl. lia.
Qed.

Lemma stored_with_count_action (test : value -> bool) (a : value) (this : t) :
  stored_with test (count_action a this) = stored_with test this.
Proof. unfold stored_with. now rewrite rules_count_action. Qed.

Lemma counters_count_action (a : value) (this : t) :
  dynamicHandlerCount (count_action a this)
  = dynamicHandlerCount this + (if isFunction a then 1 else 0) /\
  staticRerouteCount (count_action a this)
  = staticRerouteCount this + (if isString a then 1 else 0) /\
  staticLockCount (count_action a this)
  = staticLockCount this + (if is_lock a then 1 else 0).
Proof.
  unfold count_action.
  destruct a as [| |[|]| | | | | |]; simpl; repeat split; lia.
Qed.

(** X6: The counters never fall behind the store: each is at least the number
    of stored rules of its kind. *)
Theorem counters_never_undercount (this : t) :
  reachable this ->
  stored_with isFunction this <= dynamicHandlerCount this /\
  stored_with isString this <= staticRerouteCount this /\
  stored_with is_lock this <= staticLockCount this.
Proof.
  revert this. apply reachable_inv.
  - intros id. unfold stored_with. simpl. lia.
  - intros this globs rule k this' (Hd & Hr & Hl) H.
    apply useRule_inv in H as (g & r & -> & _ & -> & ->).
    set (r' := prop_set "$p" _ r).
    assert (Ha : prop_get "action" r' = prop_get "action" r).
    { unfold r'. now rewrite prop_get_prop_set. }
    pose proof (counters_count_action (prop_get "action" r) this)
      as (Cd & Cr & Cl).
    pose proof (stored_with_store isFunction
                  (stringifyGlobMultiPattern (parseGlobMultiPattern g)) r'
                  (count_action (prop_get "action" r) this)) as Sd.
    pose proof (stored_with_store isString
                  (stringifyGlobMultiPattern (parseGlobMultiPattern g)) r'
                  (count_action (prop_get "action" r) this)) as Sr.
    pose proof (stored_with_store is_lock
                  (stringifyGlobMultiPattern (parseGlobMultiPattern g)) r'
                  (count_action (prop_get "action" r) this)) as Sl.
    rewrite stored_with_count_action, Ha in Sd, Sr, Sl.
    simpl. lia.
Qed.

Lemma counters_never_undercount_witness :
  exists this,
    new (VStr "app")
        (VObj [("rules", VObj [("dynamicDir/", VFun 0);
                               ("lockedDir/", VBool false);
                               ("lockedDir/ | ", VBool true)])])
    = Ok this /\
    stored_with isFunction this <= dynamicHandlerCount this /\
    stored_with isString this <= staticRerouteCount this /\
    stored_with is_lock this <= staticLockCount this.
Proof.
  eexists. split; [reflexivity|].
  exact (counters_never_undercount _
           (reach_new (VStr "app")
              (VObj [("rules", VObj [("dynamicDir/", VFun 0);
                                     ("lockedDir/", VBool false);
                                     ("lockedDir/ | ", VBool true)])])
              _ eq_refl)).
Defined.

(** X8: The [appId] of a provider is the string it was constructed with, and
    no registration changes it. *)
Theorem appId_kept :
  (forall id config this, new (VStr id) config = Ok this -> appId this = id) /\
  (forall this globs rule k this',
     _useRule this globs rule = Ok (k, this') -> appId this' = appId this).
Proof.
  assert (Hstep : forall this globs rule k this',
             _useRule this globs rule = Ok (k, this') ->
             appId this' = appId this).
  { intros this globs rule k this' H.
    apply useRule_inv in H as (g & r & -> & _ & -> & ->).
    simpl. unfold count_action.
    destruct (isFunction _); [reflexivity|].
    destruct (isString _); [reflexivity|].
    now destruct (prop_get "action" r) as [| |[|]| | | | | |]. }
  split; [|exact Hstep].
  intros id config this. unfold new, _useRules.
  destruct (negb (truthy (prop_get "rules" (with_defaults config)))).
  - intros H; now inversion H.
  - destruct (prop_get "rules" (with_defaults config)); try discriminate.
    apply (useRules_loop_inv (fun t => appId t = id)); [|reflexivity].
    intros this0 globs rule k this1 Hid H. now rewrite (Hstep _ _ _ _ _ H).
Qed.

(** ** Fields of the resolved record *)

Lemma lookup_none_keys {A} (k : string) (l : list (string * A)) :
  lookup k l = None <-> ~ In k (map fst l).
Proof.
  induction l as [|[k0 v0] l IH]; simpl.
  - tauto.
  - destruct (String.eqb k0 k) eqn:E.
    + apply String.eqb_eq in E. split; [discriminate | tauto].
    + apply String.eqb_neq in E. tauto.
Qed.

Lemma lookup_rev_NoDup {A} (f : string) (r : list (string * A)) :
  NoDup (map fst r) -> lookup f (rev r) = lookup f r.
Proof.
  induction r as [|[k0 v0] r IH]; simpl; [reflexivity|].
  intros H. inversion H as [|? ? Hnotin Hnodup]; subst.
  rewrite lookup_app, (IH Hnodup). simpl.
  destruct (String.eqb k0 f) eqn:E; [|now destruct (lookup f r)].
  apply String.eqb_eq in E; subst f.
  apply lookup_none_keys in Hnotin. now rewrite Hnotin.
Qed.

Lemma merge_skips (f : string) (rules : list props) (c : props) :
  (forall r, In r rules -> lookup f r = None) ->
  lookup f (fold_left extend rules c) = lookup f c.
Proof.
  revert c. induction rules as [|r rules IH]; intros c H; simpl.
  - reflexivity.
  - rewrite IH by (intros r' Hr'; apply H; now right).
    rewrite lookup_extend, lookup_rev_none; [reflexivity|].
    apply H. now left.
Qed.

Lemma record_field (f : string) (merged : props) (target ps : value) :
  f <> "$p" -> f <> "$ps" -> f <> "$target" ->
  lookup f (prop_set "$target" target
              (prop_set "$ps" ps (prop_delete "$p" merged)))
  = lookup f merged.
Proof.
  intros H1 H2 H3.
  rewrite !lookup_prop_set, lookup_prop_delete.
  destruct (String.eqb "$target" f) eqn:E3;
    [apply String.eqb_eq in E3; congruence|].
  destruct (String.eqb "$ps" f) eqn:E2;
    [apply String.eqb_eq in E2; congruence|].
  destruct (String.eqb "$p" f) eqn:E1;
    [apply String.eqb_eq in E1; congruence|].
  reflexivity.
Qed.

Section Fields.
Variable multimatch : string -> list string -> list string.
Variable normalize : string -> string.

Lemma matching_rules_lack (path f : string) (slots : list (string * props)) :
  (forall slot, In slot slots -> matches multimatch path slot = true ->
                lookup f (snd slot) = None) ->
  forall r, In r (map snd (filter (matches multimatch path) slots)) ->
            lookup f r = None.
Proof.
  intros H r Hr. apply in_map_iff in Hr as (slot & <- & Hin).
  apply filter_In in Hin as [Hin Hm]. now apply H.
Qed.

(** The merged record has the field as the last visited matching slot
    that carries it has it. *)
Lemma scan_field_last (path f : string) (v : value)
  (l1 l2 : list (string * props)) (k : string) (r : props) :
  matches multimatch path (k, r) = true ->
  lookup f (rev r) = Some v ->
  (forall slot, In slot l2 -> matches multimatch path slot = true ->
                lookup f (snd slot) = None) ->
  lookup f (snd (scan multimatch path (l1 ++ (k, r) :: l2))) = Some v.
Proof.
  intros Hm Hv Hl2. rewrite scan_spec. cbn [snd].
  rewrite filter_app. cbn [filter]. rewrite Hm.
  rewrite map_app. cbn [map snd]. rewrite fold_left_app. cbn [fold_left].
  rewrite merge_skips by now apply matching_rules_lack.
  now rewrite lookup_extend, Hv.
Qed.

(** X9: In the record of [getRulesFor], a field other than [$p], [$ps] and
    [$target] has the value that the last slot, in the enumeration order
    of the store, that matches the path and carries the field gives it. *)
Theorem resolved_field (this : t) (p f : string) (v : value)
  (l1 l2 : list (string * props)) (k : string) (r : props) :
  own (_rules this) = l1 ++ (k, r) :: l2 ->
  matches multimatch (normalize p) (k, r) = true ->
  NoDup (map fst r) ->
  lookup f r = Some v ->
  (forall slot, In slot l2 -> matches multimatch (normalize p) slot = true ->
                lookup f (snd slot) = None) ->
  f <> "$p" -> f <> "$ps" -> f <> "$target" ->
  exists record,
    getRulesFor multimatch normalize this (VStr p) = Ok record /\
    lookup f record = Some v.
Proof.
  intros Hown Hm Hnd Hv Hl2 H1 H2 H3.
  rewrite getRulesFor_string. cbv zeta. eexists. split; [reflexivity|].
  rewrite record_field by assumption. rewrite Hown.
  apply scan_field_last; try assumption.
  now rewrite lookup_rev_NoDup.
Qed.

(** X10: A field that no matching slot carries is not in the record. *)
Theorem unresolved_field_absent (this : t) (p f : string) :
  (forall slot, In slot (own (_rules this)) ->
                matches multimatch (normalize p) slot = true ->
                lookup f (snd slot) = None) ->
  f <> "$p" -> f <> "$ps" -> f <> "$target" ->
  exists record,
    getRulesFor multimatch normalize this (VStr p) = Ok record /\
    lookup f record = None.
Proof.
  intros H H1 H2 H3.
  rewrite getRulesFor_string. cbv zeta. eexists. split; [reflexivity|].
  rewrite record_field by assumption. rewrite scan_spec. cbn [snd].
  rewrite merge_skips; [reflexivity | now apply matching_rules_lack].
Qed.

End Fields.

Lemma resolved_field_witness :
  exists record,
    resolveRulesFor
      (mk "app"
          (mkRules
             [("a", [("action", VStr "x/"); ("fallbackIndex", VBool true);
                     ("$p", VArr [VStr "a"])]);
              ("a | a", [("action", VBool false);
                         ("$p", VArr [VStr "a"; VStr "a"])])]
             None) 0 1 1)
      (VStr "a") = Ok record /\
    lookup "fallbackIndex" record = Some (VBool true).
Proof.
  unfold resolveRulesFor.
  apply (resolved_field Lib.multimatch Lib.normalize _ "a" "fallbackIndex"
           (VBool true) []
           [("a | a", [("action", VBool false);
                       ("$p", VArr [VStr "a"; VStr "a"])])]
           "a" [("action", VStr "x/"); ("fallbackIndex", VBool true);
                ("$p", VArr [VStr "a"])]);
    try reflexivity; try discriminate.
  - repeat constructor; simpl; intuition discriminate.
  - intros slot [<- | []] _. reflexivity.
Defined.

Lemma unresolved_field_absent_witness :
  exists record,
    resolveRulesFor
      (mk "app"
          (mkRules
             [("a", [("fallbackIndex", VBool true); ("$p", VArr [VStr "a"])])]
             None) 0 0 0)
      (VStr "a") = Ok record /\
    lookup "action" record = None.
Proof.
  unfold resolveRulesFor.
  apply (unresolved_field_absent Lib.multimatch Lib.normalize _ "a" "action");
    try discriminate.
  intros slot [<- | []] _. reflexivity.
Defined.

Lemma keys_insert_index {A} (n : N) (k x : string) (v : A) (l : list (string * A)) :
  In x (map fst (insert_index n k v l)) <-> x = k \/ In x (map fst l).
Proof.
  induction l as [|[k0 v0] l IH]; simpl; [intuition congruence|].
  destruct (array_index k0) as [m|]; [destruct (N.ltb m n)|]; simpl;
    rewrite ?IH; intuition congruence.
Qed.

Lemma NoDup_insert_index {A} (n : N) (k : string) (v : A) (l : list (string * A)) :
  ~ In k (map fst l) -> NoDup (map fst l) ->
  NoDup (map fst (insert_index n k v l)).
Proof.
  induction l as [|[k0 v0] l IH]; simpl; intros Hk Hl.
  - repeat constructor. tauto.
  - inversion Hl as [|? ? Hnotin Hnodup]; subst.
    assert (Hall : NoDup (k :: k0 :: map fst l)).
    { constructor; [simpl; tauto | assumption]. }
    destruct (array_index k0) as [m|]; [destruct (N.ltb m n)|]; simpl;
      try exact Hall.
    constructor.
    + rewrite keys_insert_index. intros [-> | H]; tauto.
    + apply IH; tauto.
Qed.

Lemma NoDup_prop_set {A} (k : string) (v : A) (l : list (string * A)) :
  NoDup (map fst l) -> NoDup (map fst (prop_set k v l)).
Proof.
  intros H. unfold prop_set, has_own.
  destruct (lookup k l) eqn:E.
  - now rewrite keys_prop_replace.
  - apply lookup_none_keys in E. unfold prop_create.
    destruct (array_index k).
    + now apply NoDup_insert_index.
    + rewrite map_app. simpl. apply NoDup_app; repeat split;
        try assumption.
      * repeat constructor. tauto.
      * intros x Hx [<- | []]. contradiction.
Qed.

(** X11: A rule registered under a canonical key that is new to the store, is
    not an array index and is not ["__proto__"] is visited last: on every
    path its patterns match, the record has each of the rule's fields as
    the rule gives it. *)
Theorem youngest_new_rule_wins
  (multimatch : string -> list string -> list string)
  (normalize : string -> string)
  (this : t) (g p : string) (rule : value) (r : props) (f : string) (v : value) :
  let k := stringifyGlobMultiPattern (parseGlobMultiPattern g) in
  as_rule rule = Some r ->
  NoDup (map fst r) ->
  has_own k (own (_rules this)) = false ->
  String.eqb k "__proto__" = false ->
  array_index k = None ->
  Nat.ltb 0 (List.length (multimatch (normalize p) (parseGlobMultiPattern g)))
  = true ->
  lookup f r = Some v ->
  f <> "$p" -> f <> "$ps" -> f <> "$target" ->
  exists this' record,
    _useRule this (VStr g) rule = Ok (k, this') /\
    getRulesFor multimatch normalize this' (VStr p) = Ok record /\
    lookup f record = Some v.
Proof.
  cbv zeta. intros Hr Hnd Hnew Hproto Hindex Hmatch Hv H1 H2 H3.
  rewrite (useRule_ok this g rule r Hr). cbv zeta.
  eexists _, _. split; [reflexivity|].
  rewrite getRulesFor_string. cbv zeta. split; [reflexivity|].
  rewrite record_field by assumption.
  rewrite own_store_new_key; try assumption;
    [| now rewrite rules_count_action].
  apply scan_field_last.
  - unfold matches. cbn [snd]. now rewrite patterns_of_prop_set.
  - rewrite lookup_rev_NoDup by now apply NoDup_prop_set.
    rewrite lookup_prop_set.
    destruct (String.eqb "$p" f) eqn:E; [|assumption].
    apply String.eqb_eq in E. congruence.
  - intros slot [].
Qed.

Lemma youngest_new_rule_wins_witness :
  exists this' record,
    _useRule (fresh "app") (VStr "locked | lockedB")
             (VObj [("action", VBool false); ("fallbackIndex", VBool true)])
    = Ok ("locked | lockedB", this') /\
    resolveRulesFor this' (VStr "lockedB/") = Ok record /\
    lookup "fallbackIndex" record = Some (VBool true).
Proof.
  unfold resolveRulesFor.
  apply (youngest_new_rule_wins Lib.multimatch Lib.normalize (fresh "app")
           "locked | lockedB" "lockedB/"
           (VObj [("action", VBool false); ("fallbackIndex", VBool true)])
           [("action", VBool false); ("fallbackIndex", VBool true)]
           "fallbackIndex" (VBool true));
    try reflexivity; try discriminate.
  repeat constructor; simpl; intuition discriminate.
Defined.




Lemma stored_with_store_new (test : value -> bool) (k : string) (r : props)
  (this : t) :
  has_own k (own (_rules this)) = false ->
  String.eqb k "__proto__" = false ->
  stored_with test (store_rule k r this)
  = stored_with test this + (if test (prop_get "action" r) then 1 else 0).
Proof.
  intros Hnew Hproto. unfold stored_with, store_rule, rules_assign. simpl.
  rewrite Hnew, Hproto. simpl.
  exact (census_create (fun r => test (prop_get "action" r)) k r
           (own (_rules this))).
Qed.

(** X7: A registration under a canonical key that is new to the store (and is
    not ["__proto__"]) moves each counter by as much as the number of
    stored rules of its kind: counters that were exact stay exact. *)
Theorem counters_exact_on_new_key (this : t) (g : string) (rule : value)
  (r : props) :
  let k := stringifyGlobMultiPattern (parseGlobMultiPattern g) in
  as_rule rule = Some r ->
  has_own k (own (_rules this)) = false ->
  String.eqb k "__proto__" = false ->
  exists this',
    _useRule this (VStr g) rule = Ok (k, this') /\
    dynamicHandlerCount this' + stored_with isFunction this
    = dynamicHandlerCount this + stored_with isFunction this' /\
    staticRerouteCount this' + stored_with isString this
    = staticRerouteCount this + stored_with isString this' /\
    staticLockCount this' + stored_with is_lock this
    = staticLockCount this + stored_with is_lock this'.
Proof.
  cbv zeta. intros Hr Hnew Hproto.
  rewrite (useRule_ok this g rule r Hr). cbv zeta.
  eexists. split; [reflexivity|].
  pose proof (counters_count_action (prop_get "action" r) this)
    as (Cd & Cr & Cl).
  rewrite !stored_with_store_new, !stored_with_count_action,
    !prop_get_prop_set by (now rewrite ?rules_count_action).
  simpl. lia.
Qed.

Lemma counters_exact_on_new_key_witness :
  exists this',
    _useRule (fresh "app") (VStr "redirect_from/") (VStr "redirect_to/")
    = Ok ("redirect_from/", this') /\
    dynamicHandlerCount this' + stored_with isFunction (fresh "app")
    = dynamicHandlerCount (fresh "app") + stored_with isFunction this' /\
    staticRerouteCount this' + stored_with isString (fresh "app")
    = staticRerouteCount (fresh "app") + stored_with isString this' /\
    staticLockCount this' + stored_with is_lock (fresh "app")
    = staticLockCount (fresh "app") + stored_with is_lock this'.
Proof.
  exact (counters_exact_on_new_key (fresh "app") "redirect_from/"
           (VStr "redirect_to/") [("action", VStr "redirect_to/")]
           eq_refl eq_refl eq_refl).
Defined.

(** ** The store, also when rule objects are shared *)




(** The invariant holds of the store that the source reaches when one
    rule object is registered under ["a"] and then under ["b"]: both slots
    then carry the patterns of the second key. *)
Lemma store_ok_with_shared_rule :
  store_ok
    (mk "app"
        (mkRules [("a", [("action", VBool false); ("$p", VArr [VStr "b"])]);
                  ("b", [("action", VBool false); ("$p", VArr [VStr "b"])])]
                 None) 0 0 2).
Proof.
  split.
  - repeat constructor; simpl; intuition discriminate.
  - intros _. repeat constructor; discriminate.
Qed.


